(** * libdill pollset: backend selection and the pollset contract

  [src/pollset.c] consists of a single C preprocessor conditional that
  pulls in one of the three poll-mechanism implementations
  ([epoll.inc], [kqueue.inc], [poll.inc]).  The first part of this file
  embeds that conditional: the controlling expressions are kept as
  syntax trees and evaluated against the set of macros that are defined
  when the translation unit is preprocessed.  The second part models the
  Interest Table and the wait loop that live in the included files. *)

From stdpp Require Import gmap strings list fin_maps.

Open Scope Z_scope.
Open Scope string_scope.

(** ** The conditional-inclusion fragment of the C preprocessor *)

Module Cpp.

(** The macros that are defined at the point where the file is read. *)
Abbreviation macros := (gset string).

(** Controlling expressions of [#if] and [#elif], restricted to the
    operators that occur in [pollset.c]. *)
Inductive pp_expr : Type :=
| Const (n : Z)
| Defined (m : string)
| Not (e : pp_expr)
| And (e1 e2 : pp_expr).

Definition of_bool (b : bool) : Z := if b then 1 else 0.

(** Integer value of a controlling expression: [defined M] is 1 or 0,
    [!e] is 1 exactly when [e] is 0, [e1 && e2] is 1 exactly when both
    operands are non-zero. *)
Fixpoint eval (D : macros) (e : pp_expr) : Z :=
  match e with
  | Const n => n
  | Defined m => of_bool (bool_decide (m ∈ D))
  | Not e => of_bool (Z.eqb (eval D e) 0)
  | And e1 e2 =>
      of_bool (negb (Z.eqb (eval D e1) 0) && negb (Z.eqb (eval D e2) 0))
  end.

(** Whether the macro [m] occurs in a controlling expression. *)
Fixpoint mentions (m : string) (e : pp_expr) : bool :=
  match e with
  | Const _ => false
  | Defined m' => bool_decide (m = m')
  | Not e => mentions m e
  | And e1 e2 => mentions m e1 || mentions m e2
  end.

(** A group is taken when its controlling expression is non-zero. *)
Definition holds (D : macros) (e : pp_expr) : bool :=
  negb (Z.eqb (eval D e) 0).

(** Lines inside a group.  [Error] is the [#error] directive, the only
    way a conditional can make preprocessing fail. *)
Inductive line : Type :=
| Include (file : string)
| Error (msg : string).

Definition group := list line.

(** An [#if ... #elif ... #else ... #endif] section: the guarded groups
    in textual order and the optional [#else] group. *)
Record if_section : Type := IfSection {
  guarded : list (pp_expr * group);
  otherwise : option group
}.

(** The first group whose expression is non-zero is processed; later
    groups are skipped without being evaluated. *)
Fixpoint select (D : macros) (gs : list (pp_expr * group))
    (els : option group) : group :=
  match gs with
  | [] => default [] els
  | (e, g) :: gs' => if holds D e then g else select D gs' els
  end.

(** Processing a group: the files it includes, or [None] when an
    [#error] is reached. *)
Fixpoint run (g : group) : option (list string) :=
  match g with
  | [] => Some []
  | Include f :: g' => cons f <$> run g'
  | Error _ :: _ => None
  end.

Definition preprocess (D : macros) (s : if_section) : option (list string) :=
  run (select D (guarded s) (otherwise s)).

End Cpp.

(** ** [src/pollset.c], lines 28-41 *)

Module Pollset_c.
Import Cpp.

Definition pollset_c : if_section :=
  {| guarded :=
       [ (* #if defined DILL_EPOLL *)
         (Defined "DILL_EPOLL", [Include "epoll.inc"]);
         (* #elif defined DILL_KQUEUE *)
         (Defined "DILL_KQUEUE", [Include "kqueue.inc"]);
         (* #elif defined DILL_POLL *)
         (Defined "DILL_POLL", [Include "poll.inc"]);
         (* #elif 0 && defined __linux__ && !defined DILL_NO_EPOLL *)
         (And (And (Const 0) (Defined "__linux__"))
              (Not (Defined "DILL_NO_EPOLL")),
          [Include "epoll.inc"]);
         (* #elif defined BSD && !defined DILL_NO_KQUEUE *)
         (And (Defined "BSD") (Not (Defined "DILL_NO_KQUEUE")),
          [Include "kqueue.inc"]) ];
     (* #else *)
     otherwise := Some [Include "poll.inc"] |}.

(** The outcome of preprocessing [pollset.c] with the macros [D]
    defined: the list of backend files included, or [None] when the
    build is stopped by an [#error]. *)
Definition backend (D : macros) : option (list string) :=
  preprocess D pollset_c.

(** The three user overloads. *)
Definition overloads : list string :=
  ["DILL_EPOLL"; "DILL_KQUEUE"; "DILL_POLL"].

(** How many of the user overloads are defined. *)
Definition overloads_defined (D : macros) : nat :=
  length (filter (λ m, m ∈ D) overloads).

(** The backend files that exist. *)
Definition backends : list string :=
  ["epoll.inc"; "kqueue.inc"; "poll.inc"].

(** Build configurations used as examples below. *)
Definition linux_host : macros := {[ "__linux__" ]}.
Definition linux_host_no_epoll : macros := {[ "__linux__"; "DILL_NO_EPOLL" ]}.
Definition bsd_host : macros := {[ "BSD" ]}.
Definition bsd_host_no_kqueue : macros := {[ "BSD"; "DILL_NO_KQUEUE" ]}.
Definition forced_epoll_on_bsd : macros :=
  {[ "DILL_EPOLL"; "BSD"; "DILL_NO_EPOLL" ]}.
Definition forced_kqueue_on_linux : macros :=
  {[ "DILL_KQUEUE"; "__linux__"; "DILL_NO_KQUEUE" ]}.
Definition forced_poll_on_bsd : macros := {[ "DILL_POLL"; "BSD" ]}.
Definition epoll_and_kqueue : macros := {[ "DILL_EPOLL"; "DILL_KQUEUE" ]}.

End Pollset_c.


(** ** The pollset contract implemented by the included backends *)

Module Pollset.

(** Modelled from the spec: the Interest Flags of the data model, "a set
    over {read-ready, write-ready}".  The included files [epoll.inc],
    [kqueue.inc] and [poll.inc], which hold the pollset implementation,
    are missing; everything in this module follows the specification of
    the contract they share. *)
Inductive flag : Type := ReadReady | WriteReady.

#[global] Instance flag_eq_dec : EqDecision flag.
Proof. solve_decision. Defined.

#[global] Instance flag_countable : Countable flag.
Proof.
  refine (inj_countable'
            (λ f, match f with ReadReady => false | WriteReady => true end)
            (λ b : bool, if b then WriteReady else ReadReady) _).
  by intros [].
Defined.

(** Modelled from the spec: a Descriptor Handle is "an integer file
    descriptor in OS terms", a tag is "an opaque caller-supplied
    identifier". *)
Abbreviation descriptor := Z.
Abbreviation tag := string.

(** Modelled from the spec: the error taxonomy of section 7.  A timeout
    is not an error. *)
Inductive error : Type :=
| InvalidDescriptor
| BackendError (code : Z).

(** Operations either succeed with a value or fail with an error. *)
Inductive result (A : Type) : Type :=
| Ok (a : A)
| Err (e : error).
Arguments Ok {A} a.
Arguments Err {A} e.

Definition bind {A B} (r : result A) (k : A → result B) : result B :=
  match r with
  | Ok a => k a
  | Err e => Err e
  end.

(** Modelled from the spec: the Interest Table, a "mapping from
    Descriptor Handle to the currently registered Interest Flags and an
    opaque caller tag", tracked "per-flag-per-descriptor": every
    registered flag of a descriptor carries the tag it was registered
    with. *)
Abbreviation interest := (gmap flag tag).
Abbreviation table := (gmap descriptor interest).

(** Modelled from the spec: [register(descriptor, flag, tag)] "adds flag
    to the descriptor's interest set, associating tag" and "fails with
    InvalidDescriptor if the descriptor is negative". *)
Definition register (d : descriptor) (f : flag) (t : tag) (T : table)
    : result table :=
  if (d <? 0)%Z then Err InvalidDescriptor
  else Ok (<[d := <[f := t]> (default ∅ (T !! d))]> T).

(** Modelled from the spec: [unregister(descriptor, flag)] "removes flag;
    if the resulting interest set is empty, the descriptor entry is
    purged"; it is a no-op when the flag was never set. *)
Definition unregister (d : descriptor) (f : flag) (T : table)
    : result table :=
  if (d <? 0)%Z then Err InvalidDescriptor
  else Ok match T !! d with
          | None => T
          | Some i =>
              let i' := delete f i in
              if decide (i' = ∅) then delete d T else <[d := i']> T
          end.

(** Modelled from the spec: [lookup(descriptor) -> (flags, tag) or
    absent]. *)
Definition lookup (d : descriptor) (T : table)
    : option (gset flag * interest) :=
  (λ i, (dom i, i)) <$> T !! d.

(** Modelled from the spec: the Interest Flags currently registered for a
    descriptor, as [lookup] reports them; none when it is absent. *)
Definition registered (d : descriptor) (T : table) : gset flag :=
  from_option fst ∅ (lookup d T).

(** Modelled from the spec: a Ready Event, "a tuple of (Descriptor
    Handle, fired flags subset of Interest Flags, caller tag)". *)
Record ready_event : Type := ReadyEvent {
  ev_fd : descriptor;
  ev_fired : gset flag;
  ev_tag : tag
}.

(** Modelled from the spec: the tag to resume when the OS saw readiness
    [ready] on a descriptor with interest [i]: flag [f] fires only if it
    is both ready and registered ("a backend must never report an event
    the caller never asked for"). *)
Definition fired_tag (i : interest) (ready : gset flag) (f : flag)
    : option tag :=
  if decide (f ∈ ready) then i !! f else None.

(** Modelled from the spec: the Ready Events of one descriptor.  A Ready
    Event is "a report that a specific interest has fired" and carries
    one tag, so flags registered under different tags are reported in
    separate events ("when B becomes write-ready only, expect exactly one
    Ready Event carrying only the write-interested tag"). *)
Definition events_for (d : descriptor) (i : interest) (ready : gset flag)
    : list ready_event :=
  match fired_tag i ready ReadReady, fired_tag i ready WriteReady with
  | Some t1, Some t2 =>
      if decide (t1 = t2)
      then [ReadyEvent d {[ReadReady; WriteReady]} t1]
      else [ReadyEvent d {[ReadReady]} t1; ReadyEvent d {[WriteReady]} t2]
  | Some t1, None => [ReadyEvent d {[ReadReady]} t1]
  | None, Some t2 => [ReadyEvent d {[WriteReady]} t2]
  | None, None => []
  end.

(** Modelled from the spec: the adapter "translates backend-native result
    sets back into a uniform event list".  A native report names a
    descriptor and the readiness classes the OS saw on it; "a descriptor
    removed from interest [...] must not produce a stale event". *)
Definition translate (T : table) (reports : list (descriptor * gset flag))
    : list ready_event :=
  reports ≫= λ '(d, ready),
    match T !! d with
    | Some i => events_for d i ready
    | None => []
    end.

(** Modelled from the spec: the timeout of a wait; "a timeout of zero
    means poll once", "a timeout of infinite means block until at least
    one event". *)
Inductive timeout : Type :=
| Finite (ms : Z)
| Infinite.

(** Modelled from the spec: "the remaining timeout budget recomputed"
    after [elapsed] milliseconds were spent; an infinite budget stays
    infinite. *)
Definition remaining (t : timeout) (elapsed : Z) : timeout :=
  match t with
  | Finite ms => Finite (Z.max 0 (ms - elapsed))
  | Infinite => Infinite
  end.

(** Modelled from the spec: what one call of the native wait primitive
    can do: report a result set, let the timeout elapse, be interrupted
    by a signal after some time, or fail with an OS error code. *)
Inductive native_outcome : Type :=
| Fired (reports : list (descriptor * gset flag))
| Expired
| Interrupted (elapsed : Z)
| Failed (code : Z).

(** A run of [wait]: the result handed to the caller ([None] while the
    native call has not returned), the timeouts the native primitive was
    called with, in order, and the native outcomes left unconsumed. *)
Record wait_run : Type := WaitRun {
  outcome : option (result (list ready_event));
  budgets : list timeout;
  unconsumed : list native_outcome
}.

(** Modelled from the spec: [wait(timeout)] "blocks the calling thread
    until at least one registered interest fires, the timeout elapses, or
    the wait is interrupted by a recoverable signal (in which case it
    transparently retries with the remaining timeout)"; it "returns an
    empty sequence on timeout"; a failing native call is surfaced as
    [BackendError].  The behaviour of the OS is the list of outcomes of
    the successive native calls. *)
Fixpoint wait (T : table) (t : timeout) (os : list native_outcome)
    : wait_run :=
  match os with
  | [] => WaitRun None [t] []
  | Fired reports :: os' => WaitRun (Some (Ok (translate T reports))) [t] os'
  | Expired :: os' => WaitRun (Some (Ok [])) [t] os'
  | Interrupted elapsed :: os' =>
      let r := wait T (remaining t elapsed) os' in
      WaitRun (outcome r) (t :: budgets r) (unconsumed r)
  | Failed code :: os' => WaitRun (Some (Err (BackendError code))) [t] os'
  end.

(** The budget left after the successive elapsed times [es]. *)
Definition budget_after (t : timeout) (es : list Z) : timeout :=
  foldl remaining t es.

(** The timeouts of the native calls that were interrupted after the
    times [es], starting from the budget [t]. *)
Fixpoint interrupted_budgets (t : timeout) (es : list Z) : list timeout :=
  match es with
  | [] => []
  | e :: es' => t :: interrupted_budgets (remaining t e) es'
  end.

(** A Ready Event is well formed for a table when its fired flags are a
    non-empty subset of the flags registered for its descriptor. *)
Definition fired_within (T : table) (ev : ready_event) : Prop :=
  ev_fired ev ≠ ∅ ∧ ev_fired ev ⊆ registered (ev_fd ev) T.

(** A table used as an example below: descriptor 3 is watched by two
    coroutines, one for reading and one for writing. *)
Definition two_coroutines : table :=
  {[ 3 := {[ ReadReady := "coro-1"; WriteReady := "coro-2" ]} ]}.

End Pollset.

Import Cpp Pollset_c Pollset.

(** ** Backend selection *)

(** Closes a goal about concrete configurations by evaluation. *)
Ltac by_evaluation :=
  vm_compute;
  first [ reflexivity | lia
        | let H := fresh in
          intros H; first [ discriminate H | destruct H as [H _]; discriminate H ] ].

Section Selection.

Implicit Types D : macros.

(** [defined M] evaluates to a non-zero value exactly when [M] is in the
    set of defined macros. *)
Lemma holds_defined D m : holds D (Defined m) = bool_decide (m ∈ D).
Proof. unfold holds; cbn [eval]. by case_bool_decide. Qed.

Lemma holds_not D e : holds D (Not e) = negb (holds D e).
Proof. unfold holds; cbn [eval]. by destruct (eval D e =? 0)%Z. Qed.

Lemma holds_and D e1 e2 : holds D (And e1 e2) = holds D e1 && holds D e2.
Proof.
  unfold holds; cbn [eval].
  by destruct (eval D e1 =? 0)%Z, (eval D e2 =? 0)%Z.
Qed.

Lemma holds_zero D : holds D (Const 0) = false.
Proof. reflexivity. Qed.

(** The conditional of [pollset.c] read as a decision list over the
    defined macros. *)
Lemma backend_unfold D :
  backend D =
  Some [ if bool_decide ("DILL_EPOLL" ∈ D) then "epoll.inc"
         else if bool_decide ("DILL_KQUEUE" ∈ D) then "kqueue.inc"
         else if bool_decide ("DILL_POLL" ∈ D) then "poll.inc"
         else if bool_decide ("BSD" ∈ D)
                 && negb (bool_decide ("DILL_NO_KQUEUE" ∈ D))
              then "kqueue.inc"
              else "poll.inc" ].
Proof.
  unfold backend, preprocess.
  cbn [pollset_c guarded otherwise select].
  rewrite !holds_and, !holds_not, !holds_defined, holds_zero.
  cbn [andb].
  repeat (case_bool_decide; cbn [andb negb run fmap option_fmap option_map default]; try reflexivity).
Qed.

(** The number of defined overloads, case by case. *)
Lemma overloads_defined_unfold D :
  overloads_defined D =
  ((if bool_decide ("DILL_EPOLL" ∈ D) then 1 else 0)
   + ((if bool_decide ("DILL_KQUEUE" ∈ D) then 1 else 0)
      + (if bool_decide ("DILL_POLL" ∈ D) then 1 else 0)))%nat.
Proof.
  unfold overloads_defined, overloads.
  rewrite !filter_cons, filter_nil.
  repeat case_decide; repeat case_bool_decide; done.
Qed.

(** C1: whatever macros are defined, preprocessing [pollset.c] succeeds
    and includes exactly one file, which is one of the three backend
    files [epoll.inc], [kqueue.inc], [poll.inc]. *)
Theorem C1_exactly_one_backend D :
  ∃ f, backend D = Some [f] ∧ f ∈ backends.
Proof.
  rewrite backend_unfold. eexists; split; [reflexivity|].
  unfold backends.
  repeat case_bool_decide; cbn [andb negb]; set_solver.
Qed.

(** C2: a user overload wins over platform detection.  With [DILL_EPOLL]
    defined the epoll backend is included; otherwise with [DILL_KQUEUE]
    defined the kqueue backend is included; otherwise with [DILL_POLL]
    defined the poll backend is included.  [D] is arbitrary, so this
    holds for every setting of [__linux__], [BSD], [DILL_NO_EPOLL] and
    [DILL_NO_KQUEUE]. *)
Theorem C2_overload_wins D :
  ("DILL_EPOLL" ∈ D → backend D = Some ["epoll.inc"]) ∧
  ("DILL_EPOLL" ∉ D → "DILL_KQUEUE" ∈ D → backend D = Some ["kqueue.inc"]) ∧
  ("DILL_EPOLL" ∉ D → "DILL_KQUEUE" ∉ D → "DILL_POLL" ∈ D →
   backend D = Some ["poll.inc"]).
Proof.
  rewrite backend_unfold.
  repeat split; intros; repeat case_bool_decide; done.
Qed.

Lemma C2_overload_wins_witness :
  backend forced_epoll_on_bsd = Some ["epoll.inc"] ∧
  backend forced_kqueue_on_linux = Some ["kqueue.inc"] ∧
  backend forced_poll_on_bsd = Some ["poll.inc"].
Proof.
  split; [|split].
  - apply (C2_overload_wins forced_epoll_on_bsd). by_evaluation.
  - apply (C2_overload_wins forced_kqueue_on_linux); by_evaluation.
  - apply (C2_overload_wins forced_poll_on_bsd); by_evaluation.
Defined.

(** C3, as claimed, fails on a Linux host: with only [__linux__] defined
    no overload is set, and the file included is [poll.inc], not
    [epoll.inc]. *)
Lemma C3_linux_default_is_poll :
  ("DILL_EPOLL" ∉ linux_host) ∧ ("DILL_KQUEUE" ∉ linux_host) ∧
  ("DILL_POLL" ∉ linux_host) ∧ ("__linux__" ∈ linux_host) ∧
  backend linux_host = Some ["poll.inc"] ∧
  backend linux_host ≠ Some ["epoll.inc"].
Proof. repeat split; by_evaluation. Qed.

(** C3, amended: with no overload defined, the epoll backend is never
    chosen by default (its branch is switched off by the constant 0); the
    kqueue backend is included when [BSD] is defined and [DILL_NO_KQUEUE]
    is not, and the poll backend is included in every other case, Linux
    hosts included. *)
Theorem C3_defaults D :
  "DILL_EPOLL" ∉ D → "DILL_KQUEUE" ∉ D → "DILL_POLL" ∉ D →
  backend D ≠ Some ["epoll.inc"] ∧
  ("BSD" ∈ D → "DILL_NO_KQUEUE" ∉ D → backend D = Some ["kqueue.inc"]) ∧
  (¬ ("BSD" ∈ D ∧ "DILL_NO_KQUEUE" ∉ D) → backend D = Some ["poll.inc"]).
Proof.
  intros He Hk Hp. rewrite backend_unfold.
  rewrite !bool_decide_eq_false_2 by done.
  repeat split; intros; repeat case_bool_decide; cbn [andb negb];
    try done; tauto.
Qed.

Lemma C3_defaults_witness :
  backend bsd_host = Some ["kqueue.inc"] ∧
  backend linux_host = Some ["poll.inc"].
Proof.
  split.
  - apply (C3_defaults bsd_host); by_evaluation.
  - apply (C3_defaults linux_host); by_evaluation.
Defined.

(** C4, as claimed, fails: with both [DILL_EPOLL] and [DILL_KQUEUE]
    defined, two overloads are set, yet preprocessing does not stop with
    an error; it includes [epoll.inc]. *)
Lemma C4_two_overloads_build :
  (2 ≤ overloads_defined epoll_and_kqueue)%nat ∧
  backend epoll_and_kqueue = Some ["epoll.inc"] ∧
  backend epoll_and_kqueue ≠ None.
Proof. repeat split; by_evaluation. Qed.

(** C4, amended: defining two or more overloads is not an error.
    Preprocessing succeeds and includes the backend of the first defined
    overload in the order [DILL_EPOLL], [DILL_KQUEUE], [DILL_POLL]: epoll
    when [DILL_EPOLL] is among them, kqueue otherwise. *)
Theorem C4_several_overloads_first_wins D :
  (2 ≤ overloads_defined D)%nat →
  backend D ≠ None ∧
  backend D =
  Some [if bool_decide ("DILL_EPOLL" ∈ D) then "epoll.inc" else "kqueue.inc"].
Proof.
  rewrite overloads_defined_unfold, backend_unfold. intros Hn.
  split; [done|].
  repeat case_bool_decide; cbn in Hn; try done; lia.
Qed.

Lemma C4_several_overloads_first_wins_witness :
  backend epoll_and_kqueue ≠ None ∧
  backend epoll_and_kqueue =
  Some [if bool_decide ("DILL_EPOLL" ∈ epoll_and_kqueue)
        then "epoll.inc" else "kqueue.inc"].
Proof.
  apply (C4_several_overloads_first_wins epoll_and_kqueue).
  by_evaluation.
Defined.

(** C5: with no overload defined and [BSD] defined, [DILL_NO_KQUEUE]
    switches the included backend from kqueue to poll. *)
Theorem C5_no_kqueue_flag D :
  "DILL_EPOLL" ∉ D → "DILL_KQUEUE" ∉ D → "DILL_POLL" ∉ D → "BSD" ∈ D →
  ("DILL_NO_KQUEUE" ∈ D → backend D = Some ["poll.inc"]) ∧
  ("DILL_NO_KQUEUE" ∉ D → backend D = Some ["kqueue.inc"]).
Proof.
  intros He Hk Hp Hb. rewrite backend_unfold.
  rewrite !bool_decide_eq_false_2 by done.
  rewrite (bool_decide_eq_true_2 _ Hb).
  split; intros; case_bool_decide; done.
Qed.

Lemma C5_no_kqueue_flag_witness :
  backend bsd_host_no_kqueue = Some ["poll.inc"] ∧
  backend bsd_host = Some ["kqueue.inc"].
Proof.
  split.
  - apply (C5_no_kqueue_flag bsd_host_no_kqueue); by_evaluation.
  - apply (C5_no_kqueue_flag bsd_host); by_evaluation.
Defined.

(** C6: [DILL_NO_EPOLL] has no influence on the selection.  Two
    configurations that agree on every macro other than [DILL_NO_EPOLL]
    include the same backend; and every branch of [pollset.c] whose
    condition mentions [DILL_NO_EPOLL] has a condition that is false in
    all configurations (it starts with the conjunct [0]). *)
Theorem C6_no_epoll_flag_ignored D D' :
  (∀ m, m ≠ "DILL_NO_EPOLL" → m ∈ D ↔ m ∈ D') →
  backend D = backend D' ∧
  (∀ e g, (e, g) ∈ guarded pollset_c →
          mentions "DILL_NO_EPOLL" e = true →
          ∀ D'', holds D'' e = false).
Proof.
  intros Hagree. split.
  - assert (∀ m, m ≠ "DILL_NO_EPOLL" →
                 bool_decide (m ∈ D) = bool_decide (m ∈ D')) as E
      by (intros m Hm; apply bool_decide_ext; auto).
    rewrite !backend_unfold.
    rewrite (E "DILL_EPOLL"), (E "DILL_KQUEUE"), (E "DILL_POLL"),
      (E "BSD"), (E "DILL_NO_KQUEUE") by discriminate.
    reflexivity.
  - intros e g Hin Hm D''. cbn [pollset_c guarded] in Hin.
    repeat (apply elem_of_cons in Hin as [Heq|Hin];
            [injection Heq as -> ->; try (vm_compute in Hm; discriminate)|]).
    + by rewrite !holds_and, holds_zero.
    + by apply elem_of_nil in Hin.
Qed.

Lemma C6_no_epoll_flag_ignored_witness :
  backend linux_host = backend linux_host_no_epoll.
Proof.
  apply (C6_no_epoll_flag_ignored linux_host linux_host_no_epoll).
  intros m Hm. unfold linux_host, linux_host_no_epoll.
  rewrite elem_of_union, !elem_of_singleton. tauto.
Defined.

(** *** Further properties of the selection *)

(** Defining or undefining a macro does not change whether another macro
    is defined. *)
Lemma defined_after_define D m m' :
  m' ≠ m → bool_decide (m' ∈ {[ m ]} ∪ D) = bool_decide (m' ∈ D).
Proof.
  intros Hne. apply bool_decide_ext.
  rewrite elem_of_union, elem_of_singleton. tauto.
Qed.

Lemma defined_after_undef D m m' :
  m' ≠ m → bool_decide (m' ∈ D ∖ {[ m ]}) = bool_decide (m' ∈ D).
Proof.
  intros Hne. apply bool_decide_ext.
  rewrite elem_of_difference, elem_of_singleton. tauto.
Qed.

Lemma defined_define D m : bool_decide (m ∈ {[ m ]} ∪ D) = true.
Proof.
  apply bool_decide_eq_true_2.
  rewrite elem_of_union, elem_of_singleton. tauto.
Qed.

Lemma defined_undef D m : bool_decide (m ∈ D ∖ {[ m ]}) = false.
Proof.
  apply bool_decide_eq_false_2.
  rewrite elem_of_difference, elem_of_singleton. tauto.
Qed.

(** X1: the epoll backend is included exactly when [DILL_EPOLL] is
    defined; no platform default ever selects it. *)
Theorem X1_epoll_iff_forced D :
  backend D = Some ["epoll.inc"] ↔ "DILL_EPOLL" ∈ D.
Proof.
  rewrite backend_unfold.
  repeat case_bool_decide; cbn [andb negb]; split; intros; done.
Qed.

(** X2: the kqueue backend is included exactly when [DILL_EPOLL] is not
    defined and either [DILL_KQUEUE] is defined, or [DILL_POLL] is not
    defined while [BSD] is defined and [DILL_NO_KQUEUE] is not. *)
Theorem X2_kqueue_iff D :
  backend D = Some ["kqueue.inc"] ↔
  ("DILL_EPOLL" ∉ D) ∧
  ("DILL_KQUEUE" ∈ D ∨
   (("DILL_POLL" ∉ D) ∧ "BSD" ∈ D ∧ ("DILL_NO_KQUEUE" ∉ D))).
Proof.
  rewrite backend_unfold.
  repeat case_bool_decide; cbn [andb negb]; split; intros; try done;
    tauto.
Qed.

(** X3: the poll backend is included exactly when neither [DILL_EPOLL]
    nor [DILL_KQUEUE] is defined and [DILL_POLL] is defined, or [BSD] is
    not defined, or [DILL_NO_KQUEUE] is defined. *)
Theorem X3_poll_iff D :
  backend D = Some ["poll.inc"] ↔
  ("DILL_EPOLL" ∉ D) ∧ ("DILL_KQUEUE" ∉ D) ∧
  ("DILL_POLL" ∈ D ∨ ("BSD" ∉ D) ∨ "DILL_NO_KQUEUE" ∈ D).
Proof.
  rewrite backend_unfold.
  repeat case_bool_decide; cbn [andb negb]; split; intros; try done;
    tauto.
Qed.

(** X4: the selection depends only on the five macros [DILL_EPOLL],
    [DILL_KQUEUE], [DILL_POLL], [BSD] and [DILL_NO_KQUEUE]: two
    configurations that agree on these include the same backend, whatever
    else (such as [__linux__]) is defined in either. *)
Theorem X4_selection_reads_five_macros D D' :
  (∀ m, m ∈ ["DILL_EPOLL"; "DILL_KQUEUE"; "DILL_POLL"; "BSD";
             "DILL_NO_KQUEUE"] →
        m ∈ D ↔ m ∈ D') →
  backend D = backend D'.
Proof.
  intros Hagree.
  assert (∀ m, m ∈ ["DILL_EPOLL"; "DILL_KQUEUE"; "DILL_POLL"; "BSD";
                    "DILL_NO_KQUEUE"] →
               bool_decide (m ∈ D) = bool_decide (m ∈ D')) as E
    by (intros m Hm; apply bool_decide_ext; auto).
  rewrite !backend_unfold.
  rewrite (E "DILL_EPOLL"), (E "DILL_KQUEUE"), (E "DILL_POLL"),
    (E "BSD"), (E "DILL_NO_KQUEUE");
    [reflexivity | repeat first [apply list_elem_of_here | apply list_elem_of_further] ..].
Qed.

Lemma X4_selection_reads_five_macros_witness :
  backend linux_host = backend ∅.
Proof.
  apply (X4_selection_reads_five_macros linux_host ∅).
  intros m Hm. unfold linux_host.
  rewrite elem_of_singleton.
  split; [intros -> | intros Hin; by apply not_elem_of_empty in Hin].
  vm_compute in Hm.
  repeat (apply elem_of_cons in Hm as [Hm|Hm]; [discriminate Hm|]).
  by apply elem_of_nil in Hm.
Defined.

(** X5: these five macros are exactly the ones the selection can depend
    on: defining a macro changes the included backend in some
    configuration if and only if it is one of the five. *)
Theorem X5_influential_macros m :
  (∃ D, backend ({[ m ]} ∪ D) ≠ backend (D ∖ {[ m ]})) ↔
  m ∈ ["DILL_EPOLL"; "DILL_KQUEUE"; "DILL_POLL"; "BSD"; "DILL_NO_KQUEUE"].
Proof.
  split.
  - intros [D Hdiff].
    destruct (decide (m ∈ ["DILL_EPOLL"; "DILL_KQUEUE"; "DILL_POLL"; "BSD";
                           "DILL_NO_KQUEUE"])) as [|Hout]; [done|].
    exfalso. apply Hdiff. rewrite !backend_unfold.
    rewrite !defined_after_define, !defined_after_undef;
      [reflexivity | intros <-; apply Hout;
        repeat first [apply list_elem_of_here | apply list_elem_of_further] ..].
  - intros Hm.
    repeat (apply elem_of_cons in Hm as [->|Hm]).
    + exists ∅. by_evaluation.
    + exists ∅. by_evaluation.
    + exists {[ "BSD" ]}. by_evaluation.
    + exists ∅. by_evaluation.
    + exists {[ "BSD" ]}. by_evaluation.
    + by apply elem_of_nil in Hm.
Qed.

(** X6: [DILL_NO_KQUEUE] only matters for the BSD default: in a
    configuration where an overload is defined or [BSD] is not, the same
    backend is included with and without [DILL_NO_KQUEUE]. *)
Theorem X6_no_kqueue_flag_confined D :
  "DILL_EPOLL" ∈ D ∨ "DILL_KQUEUE" ∈ D ∨ "DILL_POLL" ∈ D ∨ ("BSD" ∉ D) →
  backend ({[ "DILL_NO_KQUEUE" ]} ∪ D) = backend (D ∖ {[ "DILL_NO_KQUEUE" ]}).
Proof.
  intros Hcase. rewrite !backend_unfold.
  rewrite !defined_after_define, !defined_after_undef by discriminate.
  rewrite defined_define, defined_undef.
  repeat case_bool_decide; cbn [andb negb]; try done; tauto.
Qed.

Lemma X6_no_kqueue_flag_confined_witness :
  backend ({[ "DILL_NO_KQUEUE" ]} ∪ forced_kqueue_on_linux) =
  backend (forced_kqueue_on_linux ∖ {[ "DILL_NO_KQUEUE" ]}).
Proof.
  apply (X6_no_kqueue_flag_confined forced_kqueue_on_linux).
  right; left. by_evaluation.
Defined.

(** X7: with [DILL_NO_KQUEUE] defined the kqueue backend is included only
    when it is forced: if [DILL_KQUEUE] is not defined, the included file
    is never [kqueue.inc]. *)
Theorem X7_no_kqueue_respected D :
  "DILL_NO_KQUEUE" ∈ D → "DILL_KQUEUE" ∉ D →
  backend D ≠ Some ["kqueue.inc"].
Proof.
  intros Hno Hk. rewrite backend_unfold.
  rewrite (bool_decide_eq_true_2 _ Hno), (bool_decide_eq_false_2 _ Hk).
  repeat case_bool_decide; cbn [andb negb]; done.
Qed.

Lemma X7_no_kqueue_respected_witness :
  backend bsd_host_no_kqueue ≠ Some ["kqueue.inc"].
Proof.
  apply (X7_no_kqueue_respected bsd_host_no_kqueue); by_evaluation.
Defined.

End Selection.

(** ** The Interest Table and the wait loop *)

Section Contract.

Implicit Types (T : table) (d : descriptor) (f : flag) (i : interest).

Lemma registered_present d T i : T !! d = Some i → registered d T = dom i.
Proof. unfold registered, lookup. by intros ->. Qed.

Lemma registered_absent d T : T !! d = None → registered d T = ∅.
Proof. unfold registered, lookup. by intros ->. Qed.

(** A flag that fires with a tag is a registered flag. *)
Lemma fired_tag_registered i ready f t :
  fired_tag i ready f = Some t → f ∈ dom i.
Proof.
  unfold fired_tag. case_decide; [|done].
  intros Hi. apply elem_of_dom. by exists t.
Qed.

(** An event for a registered descriptor is well formed when each of its
    fired flags is registered and one of them is named. *)
Lemma fired_within_intro T d i F f0 t :
  T !! d = Some i → f0 ∈ F → (∀ f, f ∈ F → f ∈ dom i) →
  fired_within T (ReadyEvent d F t).
Proof.
  intros HT Hin Hsub. split; cbn [ev_fired ev_fd].
  - intros HF. rewrite HF in Hin. by apply not_elem_of_empty in Hin.
  - rewrite (registered_present _ _ _ HT). by intros f Hf; apply Hsub.
Qed.

Lemma events_for_fired_within T d i ready :
  T !! d = Some i → Forall (fired_within T) (events_for d i ready).
Proof.
  intros HT. unfold events_for.
  destruct (fired_tag i ready ReadReady) as [t1|] eqn:Hr;
    destruct (fired_tag i ready WriteReady) as [t2|] eqn:Hw;
    try apply fired_tag_registered in Hr;
    try apply fired_tag_registered in Hw;
    try destruct (decide (t1 = t2));
    repeat apply Forall_cons_2; try apply Forall_nil_2.
  all: first
    [ apply (fired_within_intro T d i _ ReadReady _ HT);
      [ rewrite ?elem_of_union, ?elem_of_singleton; tauto | ]
    | apply (fired_within_intro T d i _ WriteReady _ HT);
      [ rewrite ?elem_of_union, ?elem_of_singleton; tauto | ] ].
  all: intros f0; rewrite ?elem_of_union, ?elem_of_singleton;
       intros Hf0; repeat destruct Hf0 as [Hf0|Hf0]; by subst.
Qed.

Lemma translate_fired_within T reports :
  Forall (fired_within T) (translate T reports).
Proof.
  unfold translate. apply Forall_bind, Forall_forall.
  intros [d ready] _. unfold compose.
  case_match; [by apply events_for_fired_within | constructor].
Qed.

(** A wait whose native call is first interrupted after each of the times
    [es] continues like a wait started with the budget that is left. *)
Lemma wait_through_interruptions T t es os :
  wait T t ((Interrupted <$> es) ++ os) =
  let r := wait T (budget_after t es) os in
  WaitRun (outcome r) (interrupted_budgets t es ++ budgets r)%list
          (unconsumed r).
Proof.
  revert t. induction es as [|e es IH]; intros t.
  - cbn. by destruct (wait T t os).
  - cbn [fmap list_fmap app wait]. rewrite IH. reflexivity.
Qed.

(** C7: every Ready Event returned by a wait carries fired flags that are
    a non-empty subset of the flags registered for its descriptor in the
    table the wait was called with. *)
Theorem C7_fired_subset_of_registered T t os evs :
  outcome (wait T t os) = Some (Ok evs) →
  Forall (fired_within T) evs.
Proof.
  revert t. induction os as [|o os IH]; intros t; [done|].
  destruct o; cbn [wait outcome]; intros Hout;
    try (injection Hout as <-).
  - apply translate_fired_within.
  - constructor.
  - by apply (IH (remaining t elapsed)).
  - done.
Qed.

Lemma C7_fired_subset_of_registered_witness :
  Forall (fired_within two_coroutines)
         [ReadyEvent 3 {[WriteReady]} "coro-2"].
Proof.
  apply (C7_fired_subset_of_registered two_coroutines (Finite 100)
           [Interrupted 30;
            Fired [(3, {[WriteReady]}); (4, {[ReadReady]})]]).
  vm_compute. reflexivity.
Defined.

(** C8: registering the same (descriptor, flag, tag) twice gives the same
    outcome as registering it once: the same table, or the same
    [InvalidDescriptor] failure.  For a valid descriptor the double
    registration succeeds, and one [unregister] of the flag afterwards
    leaves the flag unregistered. *)
Theorem C8_register_idempotent d f t T :
  bind (register d f t T) (register d f t) = register d f t T ∧
  ((0 ≤ d)%Z → ∃ T2 T3,
     bind (register d f t T) (register d f t) = Ok T2 ∧
     unregister d f T2 = Ok T3 ∧
     f ∉ registered d T3).
Proof.
  unfold register, unregister.
  destruct (d <? 0)%Z eqn:Hd; cbn [bind]; rewrite ?Hd.
  { split; [done|]. intros Hpos. apply Z.ltb_lt in Hd. lia. }
  rewrite lookup_insert_eq; cbn [default from_option id].
  rewrite !insert_insert_eq.
  split; [done|]. intros _. do 2 eexists. split; [done|].
  rewrite lookup_insert_eq; cbn zeta. split; [done|].
  rewrite delete_insert_eq. case_decide as Hempty.
  - rewrite registered_absent by apply lookup_delete_eq.
    apply not_elem_of_empty.
  - rewrite (registered_present _ _ _ (lookup_insert_eq _ _ _)).
    rewrite dom_delete_L, elem_of_difference, elem_of_singleton. tauto.
Qed.

Lemma C8_register_idempotent_witness :
  ∃ T2 T3,
    bind (register 3 ReadReady "coro-1" ∅) (register 3 ReadReady "coro-1")
    = Ok T2 ∧
    unregister 3 ReadReady T2 = Ok T3 ∧
    ReadReady ∉ registered 3 T3.
Proof.
  apply (C8_register_idempotent 3 ReadReady "coro-1" ∅). lia.
Defined.

(** C9: whatever the timeout, when the native wait reports that the
    timeout elapsed (possibly after some interrupted attempts), [wait]
    returns the empty list of Ready Events as a success. *)
Theorem C9_timeout_is_empty_success T t es rest :
  outcome (wait T t ((Interrupted <$> es) ++ Expired :: rest)) = Some (Ok []).
Proof. by rewrite wait_through_interruptions. Qed.

(** C10: interruptions are absorbed by [wait] and nothing else is retried.
    When the native wait is interrupted after each of the times [es], the
    caller is handed what a wait started with the remaining budget hands
    out, and each interrupted call was made with the budget left after
    the time spent before it.  A native call that fails after these
    interruptions is surfaced as [BackendError] at once, and the outcomes
    that follow the failure are not consumed.  In every run the native
    wait is called once per leading interruption and once more, so no
    other outcome leads to another call. *)
Theorem C10_only_interruptions_retried T t :
  (∀ es os,
     outcome (wait T t ((Interrupted <$> es) ++ os)) =
     outcome (wait T (budget_after t es) os) ∧
     budgets (wait T t ((Interrupted <$> es) ++ os)) =
     (interrupted_budgets t es ++ budgets (wait T (budget_after t es) os))%list) ∧
  (∀ es code rest,
     wait T t ((Interrupted <$> es) ++ Failed code :: rest) =
     WaitRun (Some (Err (BackendError code)))
             (interrupted_budgets t es ++ [budget_after t es])%list rest) ∧
  (∀ os, ∃ es os',
     os = ((Interrupted <$> es) ++ os')%list ∧
     (∀ e os'', os' ≠ Interrupted e :: os'') ∧
     length (budgets (wait T t os)) = S (length es)).
Proof.
  split; [|split].
  - intros es os. by rewrite wait_through_interruptions.
  - intros es code rest. by rewrite wait_through_interruptions.
  - intros os. revert t. induction os as [|o os IH]; intros t.
    { by exists [], []. }
    destruct o as [reports| |e|code].
    3: { destruct (IH (remaining t e)) as (es & os' & -> & Hhead & Hlen).
         exists (e :: es), os'. cbn [fmap list_fmap app wait budgets length].
         by rewrite Hlen. }
    all: by eexists [], (_ :: os).
Qed.

Lemma C10_only_interruptions_retried_witness :
  wait two_coroutines (Finite 100)
       ((Interrupted <$> [30; 50]) ++ Failed 9 :: [Expired]) =
  WaitRun (Some (Err (BackendError 9)))
          [Finite 100; Finite 70; Finite 20] [Expired].
Proof.
  apply (C10_only_interruptions_retried two_coroutines (Finite 100)).
Defined.

End Contract.
